(** * codecell-raw-imu: the network configuration template header

    A verification development for
    [arduino/codecell-raw-imu/secrets.template.h].  The header is a list of
    C preprocessor directives: an include guard ([SECRETS_H]) around four
    object-like macro definitions.  It is embedded as such a list, and a
    small model of the preprocessor (macro table, conditional stack) gives
    it its meaning. *)

From Stdlib Require Import ZArith String Ascii List Lia.
From stdpp Require Import base option gmap strings list fin_maps.

Local Open Scope string_scope.
Local Open Scope Z_scope.

(** ** Preprocessing tokens and directives *)

(** The replacement list of an object-like macro is a sequence of
    preprocessing tokens.  The header only uses string literals and one
    decimal integer literal; comments are removed before directives are
    executed, so the trailing [// ...] remarks are not part of any body. *)
Inductive pp_token : Type :=
  | StrLit (s : string)
  | IntLit (z : Z).

#[global] Instance pp_token_eq_dec : EqDecision pp_token.
Proof. solve_decision. Defined.

(** The directives that occur in the header. *)
Inductive directive : Type :=
  | Ifndef (name : string)
  | Define (name : string) (body : list pp_token)
  | Endif.

#[global] Instance directive_eq_dec : EqDecision directive.
Proof. solve_decision. Defined.

(** ** The header, line by line

    The opening block comment and the two [//] section comments vanish
    before preprocessing; what is left is [#ifndef SECRETS_H], five
    [#define] lines and [#endif]. *)

Module Header.

(** [#define SECRETS_H]: the guard macro has an empty replacement list. *)
Definition SECRETS_H : list pp_token := [].
(** [#define SECRET_SSID "your_wifi_network"] *)
Definition SECRET_SSID : string := "your_wifi_network".
(** [#define SECRET_PASSWORD "your_wifi_password"] *)
Definition SECRET_PASSWORD : string := "your_wifi_password".
(** [#define SECRET_IP "192.168.1.100"] *)
Definition SECRET_IP : string := "192.168.1.100".
(** [#define SECRET_OUTPORT 8000] *)
Definition SECRET_OUTPORT : Z := 8000.

(** The body of the include guard, with the four values as parameters:
    an edited copy of the template differs from it in these only. *)
Definition secrets_body (ssid password ip : string) (outport : Z)
  : list directive :=
  [ Define "SECRET_SSID" [StrLit ssid];
    Define "SECRET_PASSWORD" [StrLit password];
    Define "SECRET_IP" [StrLit ip];
    Define "SECRET_OUTPORT" [IntLit outport] ].

Definition secrets_h (ssid password ip : string) (outport : Z)
  : list directive :=
  [ Ifndef "SECRETS_H"; Define "SECRETS_H" SECRETS_H ]
    ++ secrets_body ssid password ip outport
    ++ [ Endif ].

(** The file as shipped. *)
Definition secrets_template_h : list directive :=
  secrets_h SECRET_SSID SECRET_PASSWORD SECRET_IP SECRET_OUTPORT.

(** The same four definitions without the include guard, for comparison. *)
Definition secrets_unguarded : list directive :=
  secrets_body SECRET_SSID SECRET_PASSWORD SECRET_IP SECRET_OUTPORT.

End Header.

(** ** The preprocessor *)

Module Cpp.

(** What a compiler does with a [#define] of a name that is already
    defined with a different replacement list: the C standard makes it a
    constraint violation ([Strict]); GCC, with warnings off as in the
    Arduino build, lets the new definition win ([Override]).  A
    redefinition with the identical replacement list is always fine. *)
Inductive redef_policy : Type := Strict | Override.

Record pp_state : Type := mk_state {
  macros : gmap string (list pp_token);  (* the macro table *)
  conds : list bool;                     (* open conditionals: group taken? *)
  defs : list string                     (* history: every #define executed *)
}.

Definition init_state (m : gmap string (list pp_token)) : pp_state :=
  {| macros := m; conds := []; defs := [] |}.

(** A line is live when every enclosing conditional group is taken. *)
Definition active (s : pp_state) : bool := forallb id (conds s).

Definition do_define (pol : redef_policy) (n : string) (b : list pp_token)
    (s : pp_state) : option pp_state :=
  let s' := {| macros := <[n := b]> (macros s);
               conds := conds s;
               defs := (defs s ++ [n])%list |} in
  match macros s !! n with
  | None => Some s'
  | Some b' =>
      if decide (b' = b) then Some s'
      else match pol with Strict => None | Override => Some s' end
  end.

Definition exec (pol : redef_policy) (d : directive) (s : pp_state)
  : option pp_state :=
  match d with
  | Ifndef n =>
      let taken := active s && bool_decide (macros s !! n = None) in
      Some {| macros := macros s; conds := taken :: conds s; defs := defs s |}
  | Define n b =>
      if active s then do_define pol n b s else Some s
  | Endif =>
      match conds s with
      | [] => None                        (* #endif without #if *)
      | _ :: cs => Some {| macros := macros s; conds := cs; defs := defs s |}
      end
  end.

Fixpoint run (pol : redef_policy) (ds : list directive) (s : pp_state)
  : option pp_state :=
  match ds with
  | [] => Some s
  | d :: ds' => s' ← exec pol d s; run pol ds' s'
  end.

(** [#include] of a file: its directives are executed in place; the
    conditionals it opens must be closed when the file ends. *)
Definition include (pol : redef_policy) (file : list directive)
    (s : pp_state) : option pp_state :=
  s' ← run pol file {| macros := macros s; conds := []; defs := defs s |};
  match conds s' with
  | [] => Some {| macros := macros s'; conds := conds s; defs := defs s' |}
  | _ => None                             (* unterminated #ifndef *)
  end.

End Cpp.

Import Header Cpp.

(** ** IPv4 dotted-quad text

    The header holds the target address as a string literal and leaves its
    validation to the consumer.  "A valid dotted quad" is read here as:
    four fields separated by three dots, each field the decimal numeral,
    without a leading zero, of a number from 0 to 255.  [parse_ipv4] is the
    executable form, [dotted_quad] the declarative one; they are proved
    equivalent below. *)

Module Ipv4.

Definition is_digit (c : ascii) : bool :=
  let n := N_of_ascii c in ((48 <=? n) && (n <=? 57))%N.

Definition digit_val (c : ascii) : Z := Z.of_N (N_of_ascii c) - 48.

Definition digit_char (d : Z) : ascii := ascii_of_N (Z.to_N (48 + d)).

(** Value of a string of decimal digits, most significant first. *)
Fixpoint decimal_value (acc : Z) (s : string) : option Z :=
  match s with
  | EmptyString => Some acc
  | String c r =>
      if is_digit c then decimal_value (10 * acc + digit_val c) r else None
  end.

(** One component: one to three decimal digits, no leading zero, at
    most 255. *)
Definition parse_octet (s : string) : option Z :=
  match s with
  | EmptyString => None
  | String c r =>
      if (String.length s <=? 3)%nat
         && negb (Ascii.eqb c "0" && negb (String.eqb r EmptyString))
      then v ← decimal_value 0 s; if v <=? 255 then Some v else None
      else None
  end.

(** The fields of [s] between its dots; never the empty list. *)
Fixpoint split_dots (s : string) : list string :=
  match s with
  | EmptyString => [EmptyString]
  | String c r =>
      if Ascii.eqb c "." then EmptyString :: split_dots r
      else match split_dots r with
           | f :: fs => String c f :: fs
           | [] => [String c EmptyString]
           end
  end.

Definition parse_ipv4 (s : string) : option (Z * Z * Z * Z) :=
  match split_dots s with
  | [fa; fb; fc; fd] =>
      a ← parse_octet fa; b ← parse_octet fb;
      c ← parse_octet fc; d ← parse_octet fd;
      Some (a, b, c, d)
  | _ => None
  end.

Definition valid_ipv4 (s : string) : bool :=
  match parse_ipv4 s with Some _ => true | None => false end.

(** The declarative side: the canonical text of four octets. *)
Definition octet (n : Z) : Prop := 0 <= n <= 255.

Definition render_octet (n : Z) : string :=
  let digits := map digit_char in
  string_of_list_ascii
    (if n <? 10 then digits [n]
     else if n <? 100 then digits [n / 10; n mod 10]
     else digits [n / 100; n / 10 mod 10; n mod 10]).

Definition render_ipv4 (a b c d : Z) : string :=
  render_octet a ++ "." ++ render_octet b ++ "."
    ++ render_octet c ++ "." ++ render_octet d.

Definition dotted_quad (s : string) : Prop :=
  ∃ a b c d, octet a ∧ octet b ∧ octet c ∧ octet d ∧ s = render_ipv4 a b c d.

Definition no_dot (s : string) : bool :=
  forallb (λ c, negb (Ascii.eqb c ".")) (list_ascii_of_string s).

Fixpoint join_dots (fs : list string) : string :=
  match fs with
  | [] => EmptyString
  | [f] => f
  | f :: fs' => f ++ "." ++ join_dots fs'
  end.

(** A check of every number below [k]. *)
Definition all_below (k : nat) (f : Z → bool) : bool :=
  forallb (λ i, f (Z.of_nat i)) (seq 0 k).

(** What [parse_octet] must do on the text made of the given digits. *)
Definition octet_text_ok (t : string) : bool :=
  match parse_octet t with
  | Some n => (0 <=? n) && (n <=? 255) && String.eqb t (render_octet n)
  | None => true
  end.

End Ipv4.

Import Ipv4.

(** ** The configuration surface *)

Module Config.

(** The four entries the header offers to the firmware. *)
Inductive config_name : Type := SSID | PASSWORD | IP | OUTPORT.

#[global] Instance config_name_eq_dec : EqDecision config_name.
Proof. solve_decision. Defined.

Definition all_names : list config_name := [SSID; PASSWORD; IP; OUTPORT].

Definition guard_name : string := "SECRETS_H".

Definition macro_name (n : config_name) : string :=
  match n with
  | SSID => "SECRET_SSID"
  | PASSWORD => "SECRET_PASSWORD"
  | IP => "SECRET_IP"
  | OUTPORT => "SECRET_OUTPORT"
  end.

(** The names the header defines: the guard and the four entries. *)
Definition header_names : list string := guard_name :: map macro_name all_names.

(** A macro table the header has not touched yet. *)
Definition fresh (m : gmap string (list pp_token)) : Prop :=
  Forall (λ n, m !! n = None) header_names.

(** The macro table once the guarded body has been executed on [m]. *)
Definition table_after (ssid password ip : string) (outport : Z)
    (m : gmap string (list pp_token)) : gmap string (list pp_token) :=
  <["SECRET_OUTPORT" := [IntLit outport]]>
    (<["SECRET_IP" := [StrLit ip]]>
      (<["SECRET_PASSWORD" := [StrLit password]]>
        (<["SECRET_SSID" := [StrLit ssid]]>
          (<["SECRETS_H" := []]> m)))).

(** Use of an identifier in the program text: it is replaced by the
    macro's replacement list.  An identifier that is no macro stays as it
    is and the compiler then rejects it: [None].  Expansion leaves the
    preprocessor state as it was. *)
Definition expand (name : string) (s : pp_state)
  : option (list pp_token * pp_state) :=
  b ← macros s !! name; Some (b, s).

Definition read (n : config_name) (s : pp_state)
  : option (list pp_token * pp_state) :=
  expand (macro_name n) s.

(** The replacement list each entry has in the shipped template. *)
Definition template_tokens (n : config_name) : list pp_token :=
  match n with
  | SSID => [StrLit SECRET_SSID]
  | PASSWORD => [StrLit SECRET_PASSWORD]
  | IP => [StrLit SECRET_IP]
  | OUTPORT => [IntLit SECRET_OUTPORT]
  end.

(** The entries as the consumer types them. *)
Record config : Type := mk_config {
  ssid : string;
  password : string;
  ip : string;
  outport : Z
}.

(** The replacement list of each entry in a copy edited to hold [c]. *)
Definition config_tokens (c : config) (n : config_name) : list pp_token :=
  match n with
  | SSID => [StrLit (ssid c)]
  | PASSWORD => [StrLit (password c)]
  | IP => [StrLit (ip c)]
  | OUTPORT => [IntLit (outport c)]
  end.

(** The state in which a translation unit finds itself once it has
    included a copy of the header holding [c]. *)
Definition included (c : config) (s : pp_state) : Prop :=
  ∃ m, macros s = table_after (ssid c) (password c) (ip c) (outport c) m.

Definition template_config : config :=
  {| ssid := SECRET_SSID; password := SECRET_PASSWORD;
     ip := SECRET_IP; outport := SECRET_OUTPORT |}.

Definition as_text (b : list pp_token) : option string :=
  match b with [StrLit t] => Some t | _ => None end.

Definition as_int (b : list pp_token) : option Z :=
  match b with [IntLit z] => Some z | _ => None end.

Definition read_config (s : pp_state) : option config :=
  '(b1, s1) ← read SSID s; v1 ← as_text b1;
  '(b2, s2) ← read PASSWORD s1; v2 ← as_text b2;
  '(b3, s3) ← read IP s2; v3 ← as_text b3;
  '(b4, _) ← read OUTPORT s3; v4 ← as_int b4;
  Some {| ssid := v1; password := v2; ip := v3; outport := v4 |}.

(** The constraints of the data model. *)
Definition nonempty (t : string) : bool := negb (String.eqb t EmptyString).

Definition valid_port (z : Z) : bool := (1 <=? z) && (z <=? 65535).

Definition valid_config (c : config) : bool :=
  nonempty (ssid c) && nonempty (password c)
    && valid_ipv4 (ip c) && valid_port (outport c).

(** Macros that carry a value (the guard macro has an empty body). *)
Definition valued (m : gmap string (list pp_token))
  : gmap string (list pp_token) :=
  filter (λ kv, kv.2 ≠ []) m.

(** A configuration file is well formed when, preprocessed on its own,
    it defines the guard and the four entries and nothing else, and the
    entries meet the constraints of the data model. *)
Definition well_formed (pol : redef_policy) (file : list directive) : Prop :=
  ∃ s c,
    include pol file (init_state ∅) = Some s
    ∧ dom (macros s) = list_to_set header_names
    ∧ dom (valued (macros s)) = list_to_set (map macro_name all_names)
    ∧ read_config s = Some c
    ∧ valid_config c = true.

(** Editing a copy of the file: the body of one [#define] is replaced. *)
Definition set_body (name : string) (b : list pp_token) (d : directive)
  : directive :=
  match d with
  | Define n _ => if decide (n = name) then Define n b else d
  | _ => d
  end.

Definition edit (c : config) (file : list directive) : list directive :=
  map (set_body (macro_name OUTPORT) [IntLit (outport c)])
    (map (set_body (macro_name IP) [StrLit (ip c)])
      (map (set_body (macro_name PASSWORD) [StrLit (password c)])
        (map (set_body (macro_name SSID) [StrLit (ssid c)]) file))).

(** The value of entry [n] in a translation unit that starts with the
    predefined macros [m] and includes [file]. *)
Definition read_in (pol : redef_policy) (file : list directive)
    (m : gmap string (list pp_token)) (n : config_name)
  : option (list pp_token) :=
  s ← include pol file (init_state m); fst <$> read n s.

(** How many [#define] lines of a file target a name. *)
Definition targets (name : string) (d : directive) : bool :=
  match d with
  | Define n _ => bool_decide (n = name)
  | _ => false
  end.

Definition defines_in (name : string) (file : list directive) : nat :=
  length (List.filter (targets name) file).

(** How often a name has been the target of an executed [#define]. *)
Definition times_defined (name : string) (s : pp_state) : nat :=
  length (filter (λ x, x = name) (defs s)).

End Config.

Import Config.

(** ** Using the header: inclusions and reads *)

Module Usage.

(** What a translation unit can do with this header. *)
Inductive op : Type :=
  | Include
  | Read (n : config_name).

Definition observation : Type := config_name * list pp_token.

Definition exec_op (pol : redef_policy) (o : op) (s : pp_state)
  : option (list observation * pp_state) :=
  match o with
  | Include => s' ← include pol secrets_template_h s; Some ([], s')
  | Read n => '(b, s') ← read n s; Some ([(n, b)], s')
  end.

(** What the reads of a run are expected to see. *)
Definition expected (ops : list op) : list observation :=
  flat_map (λ o, match o with
                 | Include => []
                 | Read n => [(n, template_tokens n)]
                 end) ops.

Fixpoint run_ops (pol : redef_policy) (ops : list op) (s : pp_state)
  : option (list observation * pp_state) :=
  match ops with
  | [] => Some ([], s)
  | o :: ops' =>
      '(out1, s1) ← exec_op pol o s;
      '(out2, s2) ← run_ops pol ops' s1;
      Some ((out1 ++ out2)%list, s2)
  end.

End Usage.

Import Usage.

(** ** Several readers at once *)

Module Threads.

Inductive access_kind : Type := Rd | Wr.

Record event : Type := mk_event {
  ev_thread : nat;
  ev_kind : access_kind;
  ev_loc : config_name;
  ev_val : list pp_token
}.

(** Every thread is the list of entries it still has to read; the
    threads share the configuration and take no lock. *)
Record machine : Type := mk_machine {
  shared : pp_state;
  pool : list (list config_name);
  trace : list event
}.

(** One step: any thread that has a read left performs it. *)
Inductive step (M : machine) : machine → Prop :=
  | step_read (i : nat) (n : config_name)
      (rest : list config_name) (b : list pp_token) (s' : pp_state) :
      pool M !! i = Some (n :: rest) →
      read n (shared M) = Some (b, s') →
      step M {| shared := s';
                pool := <[i := rest]> (pool M);
                trace := (trace M ++ [mk_event i Rd n b])%list |}.

Inductive steps : machine → machine → Prop :=
  | steps_refl M : steps M M
  | steps_next M1 M2 M3 : step M1 M2 → steps M2 M3 → steps M1 M3.

(** The same, driven by a schedule: the list of thread numbers in the
    order in which they run. *)
Definition sched_step (i : nat) (M : machine) : option machine :=
  match pool M !! i with
  | Some (n :: rest) =>
      '(b, s') ← read n (shared M);
      Some {| shared := s';
              pool := <[i := rest]> (pool M);
              trace := (trace M ++ [mk_event i Rd n b])%list |}
  | _ => None
  end.

Fixpoint run_schedule (sched : list nat) (M : machine) : option machine :=
  match sched with
  | [] => Some M
  | i :: sched' => M' ← sched_step i M; run_schedule sched' M'
  end.

(** With no synchronisation every two accesses of different threads are
    concurrent; they race when they touch the same entry and one of them
    writes. *)
Definition race (t : list event) : Prop :=
  ∃ i j e1 e2,
    i ≠ j ∧ t !! i = Some e1 ∧ t !! j = Some e2
    ∧ ev_thread e1 ≠ ev_thread e2
    ∧ ev_loc e1 = ev_loc e2
    ∧ (ev_kind e1 = Wr ∨ ev_kind e2 = Wr).

(** What thread [i] has seen so far. *)
Definition seen_by (i : nat) (t : list event) : list observation :=
  map (λ e, (ev_loc e, ev_val e)) (filter (λ e, ev_thread e = i) t).

Definition finished (M : machine) : Prop := Forall (λ p, p = []) (pool M).

(** The reads that are still to be done. *)
Definition remaining (M : machine) : nat := sum_list (map length (pool M)).

(** What a thread with the reads [p] sees when it runs alone. *)
Definition alone (p : list config_name) : list observation :=
  map (λ n, (n, template_tokens n)) p.

(** An access that reads, and reads the value of the template. *)
Definition clean_read (e : event) : Prop :=
  ev_kind e = Rd ∧ ev_val e = template_tokens (ev_loc e).

End Threads.

Import Threads.

(** ** Inclusion into a table that already holds some of the names *)

Module Redefinition.

Definition is_strict (pol : redef_policy) : bool :=
  match pol with Strict => true | Override => false end.

(** [#define n b] finds [n] defined with another replacement list. *)
Definition clash (m : gmap string (list pp_token)) (n : string)
    (b : list pp_token) : bool :=
  match m !! n with
  | Some b' => bool_decide (b' ≠ b)
  | None => false
  end.

(** One of the four [#define] lines of a copy holding [c] clashes. *)
Definition clashes (c : config) (m : gmap string (list pp_token)) : bool :=
  existsb (λ n, clash m (macro_name n) (config_tokens c n)) all_names.

(** The state once all five [#define] lines of a copy holding [c] have
    been executed. *)
Definition after_defines (c : config) (s : pp_state) : pp_state :=
  {| macros := table_after (ssid c) (password c) (ip c) (outport c) (macros s);
     conds := conds s;
     defs := (defs s ++ header_names)%list |}.

(** [k] inclusions of the same file in a row. *)
Fixpoint include_times (pol : redef_policy) (file : list directive)
    (k : nat) (s : pp_state) : option pp_state :=
  match k with
  | O => Some s
  | S k' => s' ← include pol file s; include_times pol file k' s'
  end.

End Redefinition.

Import Redefinition.

(** * Properties *)

(** ** The preprocessor on the header *)

Section Preprocessing.

Variable pol : redef_policy.

Lemma fresh_lookup m :
  fresh m →
  m !! "SECRETS_H" = None ∧ m !! "SECRET_SSID" = None
  ∧ m !! "SECRET_PASSWORD" = None ∧ m !! "SECRET_IP" = None
  ∧ m !! "SECRET_OUTPORT" = None.
Proof.
  unfold fresh, header_names, all_names. cbn [map macro_name guard_name].
  rewrite !Forall_cons. tauto.
Qed.

Lemma fresh_empty : fresh ∅.
Proof. unfold fresh. apply Forall_forall. intros n _. apply lookup_empty. Qed.

Lemma do_define_fresh n b s :
  macros s !! n = None →
  do_define pol n b s
  = Some {| macros := <[n := b]> (macros s);
            conds := conds s;
            defs := (defs s ++ [n])%list |}.
Proof. intros H. unfold do_define. by rewrite H. Qed.

(** First inclusion: the guard is free, the group is taken, every
    [#define] is executed. *)
Lemma include_fresh a b c d s :
  fresh (macros s) →
  include pol (secrets_h a b c d) s
  = Some {| macros := table_after a b c d (macros s);
            conds := conds s;
            defs := (defs s ++ header_names)%list |}.
Proof.
  intros (Hg & H1 & H2 & H3 & H4)%fresh_lookup.
  unfold include, secrets_h, secrets_body. cbn [app run exec].
  cbn. rewrite Hg. cbn.
  repeat (rewrite do_define_fresh
            by (cbn [macros]; rewrite ?lookup_insert_ne by done; assumption);
          cbn).
  unfold table_after, header_names. cbn. by rewrite <- !app_assoc.
Qed.

(** Any later inclusion: the guard is defined, the whole group is
    skipped and the state is the one before. *)
Lemma include_guarded a b c d s :
  is_Some (macros s !! "SECRETS_H") →
  include pol (secrets_h a b c d) s = Some s.
Proof.
  intros [g Hg]. unfold include, secrets_h, secrets_body.
  cbn. rewrite Hg. cbn. by destruct s.
Qed.

Lemma table_after_entry c n m :
  table_after (ssid c) (password c) (ip c) (outport c) m !! macro_name n
  = Some (config_tokens c n).
Proof. unfold table_after. destruct n; cbn; by simplify_map_eq. Qed.

Lemma table_after_guard a b c d m :
  table_after a b c d m !! guard_name = Some [].
Proof. unfold table_after, guard_name. by simplify_map_eq. Qed.

Lemma template_tokens_config n :
  template_tokens n = config_tokens template_config n.
Proof. by destruct n. Qed.

Lemma include_fresh_included c s :
  fresh (macros s) →
  ∃ s', include pol (secrets_h (ssid c) (password c) (ip c) (outport c)) s
        = Some s'
        ∧ included c s'
        ∧ defs s' = (defs s ++ header_names)%list.
Proof.
  intros Hf. eexists. split; [by apply include_fresh|].
  split; [by exists (macros s)|done].
Qed.

Lemma read_included c n s :
  included c s → read n s = Some (config_tokens c n, s).
Proof.
  intros [m Hm]. unfold read, expand. by rewrite Hm, table_after_entry.
Qed.

Lemma include_included c a b c' d s :
  included c s → include pol (secrets_h a b c' d) s = Some s.
Proof.
  intros [m Hm]. apply include_guarded.
  rewrite Hm. by rewrite (table_after_guard _ _ _ _ m).
Qed.

Lemma read_config_included c s :
  included c s → read_config s = Some c.
Proof.
  intros Hs. unfold read_config.
  rewrite (read_included c SSID) by done. cbn.
  rewrite (read_included c PASSWORD) by done. cbn.
  rewrite (read_included c IP) by done. cbn.
  rewrite (read_included c OUTPORT) by done. cbn.
  by destruct c.
Qed.

End Preprocessing.

(** ** Inclusions and reads after the first inclusion *)

Section UsageFacts.

Variable pol : redef_policy.

Lemma secrets_template_h_eq :
  secrets_template_h
  = secrets_h (ssid template_config) (password template_config)
      (ip template_config) (outport template_config).
Proof. reflexivity. Qed.

Lemma exec_op_included o s :
  included template_config s →
  exec_op pol o s = Some (expected [o], s).
Proof.
  intros Hs. destruct o as [|n]; cbn [exec_op].
  - rewrite secrets_template_h_eq, (include_included pol template_config) by done.
    done.
  - rewrite (read_included template_config) by done.
    unfold expected. cbn [flat_map app mbind option_bind].
    by rewrite (template_tokens_config n).
Qed.

(** No run of inclusions and reads changes the state, and every read
    sees the value of the template. *)
Lemma run_ops_included ops s :
  included template_config s →
  run_ops pol ops s = Some (expected ops, s).
Proof.
  intros Hs. induction ops as [|o ops IH]; [done|].
  cbn [run_ops]. rewrite exec_op_included by done. cbn.
  rewrite IH. cbn. unfold expected. cbn. by rewrite app_nil_r.
Qed.

Lemma expected_values ops :
  Forall (λ ob : observation, ob.2 = template_tokens ob.1) (expected ops).
Proof.
  induction ops as [|[|n] ops IH]; cbn; [constructor|done|].
  by constructor.
Qed.

End UsageFacts.

(** ** Dotted-quad text: the parser against the canonical rendering *)

Section Ipv4Facts.

Lemma all_below_spec k f :
  all_below k f = true → ∀ n, 0 <= n < Z.of_nat k → f n = true.
Proof.
  unfold all_below. rewrite forallb_forall. intros H n Hn.
  specialize (H (Z.to_nat n)). rewrite Z2Nat.id in H by lia.
  apply H, in_seq. lia.
Qed.

Lemma parse_octet_render n :
  octet n → parse_octet (render_octet n) = Some n.
Proof.
  intros Hn.
  assert (H : all_below 256
                (λ n, bool_decide (parse_octet (render_octet n) = Some n))
              = true) by (vm_compute; reflexivity).
  apply (bool_decide_eq_true_1 _), (all_below_spec _ _ H n).
  unfold octet in Hn. lia.
Qed.

Lemma render_octet_no_dot n :
  octet n → no_dot (render_octet n) = true.
Proof.
  intros Hn.
  assert (H : all_below 256 (λ n, no_dot (render_octet n)) = true)
    by (vm_compute; reflexivity).
  apply (all_below_spec _ _ H n). unfold octet in Hn. lia.
Qed.

Lemma is_digit_char c :
  is_digit c = true → ∃ d, 0 <= d < 10 ∧ c = digit_char d.
Proof.
  unfold is_digit. cbv zeta. intros [H1 H2]%andb_true_iff.
  apply N.leb_le in H1, H2.
  exists (Z.of_N (N_of_ascii c) - 48). split; [lia|].
  unfold digit_char.
  replace (48 + (Z.of_N (N_of_ascii c) - 48)) with (Z.of_N (N_of_ascii c))
    by lia.
  by rewrite N2Z.id, ascii_N_embedding.
Qed.

Lemma decimal_value_digits t acc v :
  decimal_value acc t = Some v →
  forallb is_digit (list_ascii_of_string t) = true.
Proof.
  revert acc. induction t as [|c r IH]; intros acc; [done|].
  cbn. destruct (is_digit c); [|done]. intros H. by apply IH in H.
Qed.

Lemma parse_octet_inv t n :
  parse_octet t = Some n →
  (0 < String.length t <= 3)%nat
  ∧ forallb is_digit (list_ascii_of_string t) = true.
Proof.
  destruct t as [|c r]; [done|]. unfold parse_octet.
  destruct (_ && _) eqn:E; [|done].
  apply andb_true_iff in E as [E _]. apply Nat.leb_le in E.
  destruct (decimal_value 0 _) as [v|] eqn:D; [|done]. intros _.
  split; [cbn in *; lia|]. by eapply decimal_value_digits.
Qed.

Lemma octet_text_ok_spec t n :
  octet_text_ok t = true → parse_octet t = Some n →
  octet n ∧ t = render_octet n.
Proof.
  unfold octet_text_ok, octet. intros H Hp. rewrite Hp in H.
  apply andb_true_iff in H as [[H1 H2]%andb_true_iff H3].
  apply Z.leb_le in H1, H2. by apply String.eqb_eq in H3.
Qed.

Lemma octet_text_ok_digits t :
  (0 < String.length t <= 3)%nat →
  forallb is_digit (list_ascii_of_string t) = true →
  octet_text_ok t = true.
Proof.
  pose (text := λ ds, string_of_list_ascii (map digit_char ds)).
  assert (H1 : all_below 10 (λ d1, octet_text_ok (text [d1])) = true)
    by (vm_compute; reflexivity).
  assert (H2 : all_below 10 (λ d1, all_below 10 (λ d2,
            octet_text_ok (text [d1; d2]))) = true)
    by (vm_compute; reflexivity).
  assert (H3 : all_below 10 (λ d1, all_below 10 (λ d2, all_below 10 (λ d3,
            octet_text_ok (text [d1; d2; d3])))) = true)
    by (vm_compute; reflexivity).
  intros Hl Hd.
  destruct t as [|c1 [|c2 [|c3 [|c4 r]]]]; cbn in Hl; try lia;
    cbn in Hd; rewrite ?andb_true_iff in Hd.
  - destruct Hd as [(d1 & ? & ->)%is_digit_char _].
    by apply (all_below_spec _ _ H1 d1).
  - destruct Hd as [(d1 & ? & ->)%is_digit_char
                      [(d2 & ? & ->)%is_digit_char _]].
    apply (all_below_spec _ _ (all_below_spec _ _ H2 d1 ltac:(done)) d2).
    done.
  - destruct Hd as [(d1 & ? & ->)%is_digit_char
                      [(d2 & ? & ->)%is_digit_char
                         [(d3 & ? & ->)%is_digit_char _]]].
    apply (all_below_spec _ _
             (all_below_spec _ _
                (all_below_spec _ _ H3 d1 ltac:(done)) d2 ltac:(done)) d3).
    done.
Qed.

Lemma parse_octet_sound t n :
  parse_octet t = Some n → octet n ∧ t = render_octet n.
Proof.
  intros H. destruct (parse_octet_inv _ _ H) as [Hl Hd].
  apply octet_text_ok_spec; [|done]. by apply octet_text_ok_digits.
Qed.

Lemma parse_octet_spec t n :
  parse_octet t = Some n ↔ octet n ∧ t = render_octet n.
Proof.
  split; [apply parse_octet_sound|].
  intros [Hn ->]. by apply parse_octet_render.
Qed.

Lemma split_dots_nonempty s : split_dots s ≠ [].
Proof.
  destruct s as [|c r]; [done|]. cbn.
  destruct (Ascii.eqb c "."); [done|]. by destruct (split_dots r).
Qed.

Lemma join_dots_cons f fs :
  fs ≠ [] → join_dots (f :: fs) = f ++ "." ++ join_dots fs.
Proof. by destruct fs. Qed.

Lemma split_dots_join s : join_dots (split_dots s) = s.
Proof.
  induction s as [|c r IH]; [done|]. cbn [split_dots].
  destruct (Ascii.eqb c ".") eqn:E.
  - apply Ascii.eqb_eq in E as ->.
    rewrite join_dots_cons by apply split_dots_nonempty.
    cbn. by rewrite IH.
  - pose proof (split_dots_nonempty r) as Hne.
    destruct (split_dots r) as [|f fs]; [done|].
    destruct fs as [|g fs]; by rewrite <- IH.
Qed.

Lemma split_dots_no_dot a : no_dot a = true → split_dots a = [a].
Proof.
  unfold no_dot. induction a as [|c r IH]; [done|]. cbn.
  intros [Hc Hr]%andb_true_iff. apply negb_true_iff in Hc.
  rewrite Hc. by rewrite IH.
Qed.

Lemma split_dots_app a r :
  no_dot a = true → split_dots (a ++ "." ++ r) = a :: split_dots r.
Proof.
  unfold no_dot. induction a as [|c a IH]; [done|]. cbn.
  intros [Hc Ha]%andb_true_iff. apply negb_true_iff in Hc.
  change (String c a +:+ "." +:+ r) with (String c (a +:+ "." +:+ r)).
  cbn [split_dots]. rewrite Hc. by rewrite IH.
Qed.

(** The parser accepts exactly the canonical text of four octets. *)
Lemma parse_ipv4_spec s a b c d :
  parse_ipv4 s = Some (a, b, c, d)
  ↔ octet a ∧ octet b ∧ octet c ∧ octet d ∧ s = render_ipv4 a b c d.
Proof.
  unfold parse_ipv4. split.
  - pose proof (split_dots_join s) as Hj.
    destruct (split_dots s) as [|fa [|fb [|fc [|fd [|? ?]]]]]; try done.
    destruct (parse_octet fa) as [a'|] eqn:Ha; [|done].
    destruct (parse_octet fb) as [b'|] eqn:Hb; [|done].
    destruct (parse_octet fc) as [c'|] eqn:Hc; [|done].
    destruct (parse_octet fd) as [d'|] eqn:Hd; [|done].
    cbn. intros [= -> -> -> ->].
    apply parse_octet_sound in Ha as [? ->], Hb as [? ->],
      Hc as [? ->], Hd as [? ->].
    by rewrite <- Hj.
  - intros (Ha & Hb & Hc & Hd & ->). unfold render_ipv4.
    rewrite !split_dots_app, split_dots_no_dot
      by by apply render_octet_no_dot.
    rewrite !parse_octet_render by done. done.
Qed.

Lemma valid_ipv4_dotted_quad s : valid_ipv4 s = true ↔ dotted_quad s.
Proof.
  unfold valid_ipv4, dotted_quad. split.
  - destruct (parse_ipv4 s) as [[[[a b] c] d]|] eqn:H; [|done]. intros _.
    exists a, b, c, d. by apply parse_ipv4_spec.
  - intros (a & b & c & d & H). by apply parse_ipv4_spec in H as ->.
Qed.

End Ipv4Facts.

(** ** Readers that run at the same time *)

Section ThreadFacts.

Lemma step_sched M M' :
  step M M' ↔ ∃ i, sched_step i M = Some M'.
Proof.
  split.
  - intros [i n rest b s' Hp Hr]. exists i. unfold sched_step.
    rewrite Hp, Hr. reflexivity.
  - intros [i H]. unfold sched_step in H.
    destruct (pool M !! i) as [[|n rest]|] eqn:Hp; try done.
    destruct (read n (shared M)) as [[b s']|] eqn:Hr; [|done].
    cbn in H. injection H as <-. by econstructor.
Qed.

Lemma run_schedule_steps sched M M' :
  run_schedule sched M = Some M' → steps M M'.
Proof.
  revert M. induction sched as [|i sched IH]; intros M; cbn.
  - intros [= ->]. constructor.
  - destruct (sched_step i M) as [M1|] eqn:H1; [|done]. cbn. intros H.
    eapply steps_next; [apply step_sched; eauto|by apply IH].
Qed.

(** One step on an included header: the shared state stays, the trace
    grows by one clean read of the running thread. *)
Lemma step_included M M' :
  included template_config (shared M) → step M M' →
  ∃ i n rest,
    pool M !! i = Some (n :: rest)
    ∧ shared M' = shared M
    ∧ pool M' = <[i := rest]> (pool M)
    ∧ trace M' = (trace M ++ [mk_event i Rd n (template_tokens n)])%list.
Proof.
  intros Hs [i n rest b s' Hp Hr].
  rewrite (read_included template_config), <- template_tokens_config in Hr
    by done.
  injection Hr as <- <-. by exists i, n, rest.
Qed.

Lemma steps_shared M M' :
  included template_config (shared M) → steps M M' → shared M' = shared M.
Proof.
  intros Hs H. induction H as [|M1 M2 M3 H12 _ IH]; [done|].
  destruct (step_included _ _ Hs H12) as (i & n & rest & _ & E & _).
  rewrite IH, E; [done|]. by rewrite E.
Qed.

Lemma steps_clean M M' :
  included template_config (shared M) → steps M M' →
  Forall clean_read (trace M) → Forall clean_read (trace M').
Proof.
  intros Hs H. induction H as [|M1 M2 M3 H12 _ IH]; [done|]. intros Ht.
  destruct (step_included _ _ Hs H12) as (i & n & rest & _ & E & _ & Et).
  apply IH; [by rewrite E|]. rewrite Et. apply Forall_app. split; [done|].
  by repeat constructor.
Qed.

(** Reads alone never race. *)
Lemma clean_no_race t : Forall clean_read t → ¬ race t.
Proof.
  intros Ht (i & j & e1 & e2 & _ & H1 & H2 & _ & _ & Hw).
  rewrite Forall_lookup in Ht.
  apply Ht in H1 as [K1 _], H2 as [K2 _]. destruct Hw; congruence.
Qed.

(** A thread with a read left can always take its step: nothing blocks
    and no read fails. *)
Lemma progress M i n rest :
  included template_config (shared M) →
  pool M !! i = Some (n :: rest) → ∃ M', step M M'.
Proof.
  intros Hs Hp. eexists. eapply step_read; [done|].
  by apply (read_included template_config).
Qed.

Lemma not_finished M :
  ¬ finished M → ∃ i n rest, pool M !! i = Some (n :: rest).
Proof.
  unfold finished. intros H. apply not_Forall_Exists in H; [|solve_decision].
  apply Exists_exists in H as ([|n rest] & Hin & Hne);
    [by exfalso; apply Hne|].
  apply list_elem_of_lookup in Hin as [i Hi]. by exists i, n, rest.
Qed.

Lemma seen_by_app i t1 t2 :
  seen_by i (t1 ++ t2) = (seen_by i t1 ++ seen_by i t2)%list.
Proof. unfold seen_by. by rewrite filter_app, map_app. Qed.

(** What a thread has seen, followed by what it will see, never
    changes: it is what the thread sees when it runs alone. *)
Lemma step_view M M' i p :
  included template_config (shared M) → step M M' →
  pool M !! i = Some p →
  ∃ p', pool M' !! i = Some p'
        ∧ (seen_by i (trace M') ++ alone p')%list
          = (seen_by i (trace M) ++ alone p)%list.
Proof.
  intros Hs H Hp.
  destruct (step_included _ _ Hs H) as (j & n & rest & Hj & _ & Ep & Et).
  rewrite Ep, Et, seen_by_app. destruct (decide (j = i)) as [->|Hne].
  - exists rest. rewrite list_lookup_insert_eq by by eapply lookup_lt_Some.
    split; [done|]. rewrite Hj in Hp. injection Hp as <-.
    unfold seen_by at 2. rewrite filter_cons_True by done.
    by rewrite <- app_assoc.
  - exists p. rewrite list_lookup_insert_ne by done. split; [done|].
    unfold seen_by at 2. rewrite filter_cons_False by done.
    by rewrite app_nil_r.
Qed.

Lemma steps_view M M' i p :
  included template_config (shared M) → steps M M' →
  pool M !! i = Some p →
  ∃ p', pool M' !! i = Some p'
        ∧ (seen_by i (trace M') ++ alone p')%list
          = (seen_by i (trace M) ++ alone p)%list.
Proof.
  intros Hs H. revert p. induction H as [|M1 M2 M3 H12 _ IH]; intros p Hp.
  - by exists p.
  - destruct (step_view _ _ _ _ Hs H12 Hp) as (p2 & Hp2 & E2).
    destruct (step_included _ _ Hs H12) as (_ & _ & _ & _ & E & _).
    destruct (IH ltac:(by rewrite E) _ Hp2) as (p3 & Hp3 & E3).
    exists p3. split; [done|]. by rewrite E3.
Qed.

Lemma remaining_step M M' :
  included template_config (shared M) → step M M' →
  (remaining M' < remaining M)%nat.
Proof.
  intros Hs H.
  destruct (step_included _ _ Hs H) as (j & n & rest & Hj & _ & Ep & _).
  unfold remaining. rewrite Ep. clear -Hj. revert j Hj.
  induction (pool M) as [|q qs IH]; intros [|j] Hj; try done.
  - injection Hj as ->. cbn. lia.
  - cbn. apply Nat.add_lt_mono_l. by apply IH.
Qed.

(** Whatever the threads still have to read, they can finish. *)
Lemma can_finish M :
  included template_config (shared M) → ∃ M', steps M M' ∧ finished M'.
Proof.
  remember (remaining M) as k eqn:Hk. revert M Hk.
  induction (lt_wf k) as [k _ IH]. intros M -> Hs.
  destruct (decide (finished M)) as [Hf|Hn].
  - exists M. split; [constructor|done].
  - apply not_finished in Hn as (i & n & rest & Hi).
    destruct (progress _ _ _ _ Hs Hi) as [M1 H1].
    destruct (step_included _ _ Hs H1) as (_ & _ & _ & _ & E & _).
    destruct (IH _ (remaining_step _ _ Hs H1) M1 eq_refl
                ltac:(by rewrite E)) as (M2 & H2 & Hf).
    exists M2. split; [by eapply steps_next|done].
Qed.

End ThreadFacts.

(** ** Spot checks *)

Example parse_ipv4_examples :
  parse_ipv4 "0.0.0.0" = Some (0, 0, 0, 0)
  ∧ parse_ipv4 "255.255.255.255" = Some (255, 255, 255, 255)
  ∧ parse_ipv4 "192.168.1.256" = None
  ∧ parse_ipv4 "192.168.01.100" = None
  ∧ parse_ipv4 "192.168.1" = None
  ∧ parse_ipv4 "192.168.1.100." = None
  ∧ parse_ipv4 "192.168..100" = None
  ∧ parse_ipv4 "192.168.1.1oo" = None
  ∧ parse_ipv4 EmptyString = None.
Proof. by repeat split. Qed.

Example guard_predefined_hides_entries :
  include Strict secrets_template_h (init_state {[ "SECRETS_H" := [] ]})
  = Some (init_state {[ "SECRETS_H" := [] ]})
  ∧ read_in Strict secrets_template_h {[ "SECRETS_H" := [] ]} IP = None.
Proof. split; vm_compute; reflexivity. Qed.

Example redefinition_policies :
  include Strict secrets_template_h
    (init_state {[ "SECRET_OUTPORT" := [IntLit 9000] ]}) = None
  ∧ read_in Override secrets_template_h
      {[ "SECRET_OUTPORT" := [IntLit 9000] ]} OUTPORT
    = Some [IntLit 8000].
Proof. split; vm_compute; reflexivity. Qed.

Example two_threads_interleaved :
  ∃ s M,
    include Strict secrets_template_h (init_state ∅) = Some s
    ∧ run_schedule [1; 0; 0]%nat
        {| shared := s; pool := [[SSID; OUTPORT]; [IP]]; trace := [] |}
      = Some M
    ∧ shared M = s
    ∧ pool M = [[]; []]
    ∧ trace M
      = [ mk_event 1 Rd IP [StrLit "192.168.1.100"];
          mk_event 0 Rd SSID [StrLit "your_wifi_network"];
          mk_event 0 Rd OUTPORT [IntLit 8000] ].
Proof. eexists _, _. split; [by vm_compute|]. by vm_compute. Qed.

(** * The claims about the template *)

(** ** The entries and their values *)

(** C1: preprocessed on its own, the template defines the include guard
    and exactly four entries that carry a value, each with its documented
    example value: the network name and password placeholders, the address
    192.168.1.100 and the port 8000; the file has four [#define] lines with
    a value and no other. *)
Theorem C1_exactly_four_entries (pol : redef_policy) :
  ∃ s,
    include pol secrets_template_h (init_state ∅) = Some s
    ∧ valued (macros s)
      = list_to_map
          [ ("SECRET_SSID", [StrLit "your_wifi_network"]);
            ("SECRET_PASSWORD", [StrLit "your_wifi_password"]);
            ("SECRET_IP", [StrLit "192.168.1.100"]);
            ("SECRET_OUTPORT", [IntLit 8000]) ]
    ∧ size (valued (macros s)) = 4%nat
    ∧ macros s = <["SECRETS_H" := []]> (valued (macros s))
    ∧ List.filter (λ d, match d with Define _ (_ :: _) => true | _ => false end)
        secrets_template_h
      = [ Define "SECRET_SSID" [StrLit "your_wifi_network"];
          Define "SECRET_PASSWORD" [StrLit "your_wifi_password"];
          Define "SECRET_IP" [StrLit "192.168.1.100"];
          Define "SECRET_OUTPORT" [IntLit 8000] ].
Proof.
  eexists. split.
  - rewrite secrets_template_h_eq. apply include_fresh, fresh_empty.
  - cbn [macros]. repeat split; by vm_compute.
Qed.

(** C2: the text of [SECRET_IP], "192.168.1.100", parses as a dotted quad:
    four decimal components separated by dots, each between 0 and 255. *)
Theorem C2_ip_is_dotted_quad (pol : redef_policy) :
  read_in pol secrets_template_h ∅ IP = Some [StrLit SECRET_IP]
  ∧ split_dots SECRET_IP = ["192"; "168"; "1"; "100"]
  ∧ parse_ipv4 SECRET_IP = Some (192, 168, 1, 100)
  ∧ Forall octet [192; 168; 1; 100]
  ∧ dotted_quad SECRET_IP.
Proof.
  split; [by destruct pol; vm_compute|].
  split; [reflexivity|]. split; [reflexivity|].
  assert (H : Forall octet [192; 168; 1; 100])
    by (repeat constructor; unfold octet; lia).
  split; [done|]. apply valid_ipv4_dotted_quad. reflexivity.
Qed.

(** C3: the value of [SECRET_OUTPORT], 8000, lies between 1 and 65535: it
    is a 16-bit unsigned integer other than zero. *)
Theorem C3_port_in_range (pol : redef_policy) :
  read_in pol secrets_template_h ∅ OUTPORT = Some [IntLit SECRET_OUTPORT]
  ∧ SECRET_OUTPORT = 8000
  ∧ 1 <= SECRET_OUTPORT <= 65535
  ∧ SECRET_OUTPORT mod 2 ^ 16 = SECRET_OUTPORT
  ∧ SECRET_OUTPORT ≠ 0
  ∧ valid_port SECRET_OUTPORT = true.
Proof.
  split; [by destruct pol; vm_compute|].
  unfold SECRET_OUTPORT. repeat split; (lia || done).
Qed.

(** C7: the SSID and the password that the template ships are strings of
    at least one character. *)
Theorem C7_credentials_nonempty (pol : redef_policy) :
  read_in pol secrets_template_h ∅ SSID = Some [StrLit SECRET_SSID]
  ∧ read_in pol secrets_template_h ∅ PASSWORD = Some [StrLit SECRET_PASSWORD]
  ∧ SECRET_SSID ≠ EmptyString ∧ SECRET_PASSWORD ≠ EmptyString
  ∧ (0 < String.length SECRET_SSID)%nat
  ∧ (0 < String.length SECRET_PASSWORD)%nat
  ∧ nonempty SECRET_SSID = true ∧ nonempty SECRET_PASSWORD = true.
Proof.
  split; [by destruct pol; vm_compute|].
  split; [by destruct pol; vm_compute|].
  repeat split; (done || (cbn; lia)).
Qed.

(** ** Reading the entries *)

(** C4: once the header is included (into any macro table that does not
    hold its names yet), the read of each of the four entries returns a
    value, never nothing, and leaves the state as it was; the typed read of
    the whole configuration succeeds as well. *)
Theorem C4_read_total (pol : redef_policy) (m : gmap string (list pp_token))
    (n : config_name) :
  fresh m →
  ∃ s,
    include pol secrets_template_h (init_state m) = Some s
    ∧ read n s = Some (template_tokens n, s)
    ∧ template_tokens n ≠ []
    ∧ read_config s = Some template_config.
Proof.
  intros Hm. rewrite secrets_template_h_eq.
  destruct (include_fresh_included pol template_config (init_state m) Hm)
    as (s & Hs & Hi & _).
  exists s. split; [done|]. split.
  - rewrite template_tokens_config. by apply read_included.
  - split; [by destruct n|]. by apply read_config_included.
Qed.

Lemma C4_read_total_witness :
  fresh ∅
  ∧ ∃ s,
      include Strict secrets_template_h (init_state ∅) = Some s
      ∧ read IP s = Some (template_tokens IP, s)
      ∧ template_tokens IP ≠ []
      ∧ read_config s = Some template_config.
Proof.
  assert (H : fresh ∅) by (unfold fresh; repeat constructor).
  split; [done|]. apply (C4_read_total Strict ∅ IP H).
Defined.

(** C5: the values are fixed when the header is first included.  Each of
    the four names is the target of one [#define] line only, and whatever
    the translation unit does with the header afterwards, reads and further
    inclusions in any order, the state stays the one reached by the first
    inclusion and every read yields the value the entry was defined with. *)
Theorem C5_immutable (pol : redef_policy) (m : gmap string (list pp_token))
    (ops : list op) :
  fresh m →
  Forall (λ n, defines_in (macro_name n) secrets_template_h = 1%nat) all_names
  ∧ ∃ s out,
      include pol secrets_template_h (init_state m) = Some s
      ∧ run_ops pol ops s = Some (out, s)
      ∧ out = expected ops
      ∧ Forall (λ ob : observation, ob.2 = template_tokens ob.1) out.
Proof.
  intros Hm. split; [by repeat constructor|].
  rewrite secrets_template_h_eq.
  destruct (include_fresh_included pol template_config (init_state m) Hm)
    as (s & Hs & Hi & _).
  exists s, (expected ops). split; [done|].
  split; [by apply run_ops_included|]. split; [done|apply expected_values].
Qed.

Lemma C5_immutable_witness :
  fresh ∅
  ∧ Forall (λ n, defines_in (macro_name n) secrets_template_h = 1%nat) all_names
  ∧ ∃ s out,
      include Override secrets_template_h (init_state ∅) = Some s
      ∧ run_ops Override [Read SSID; Include; Read OUTPORT; Read SSID] s
        = Some (out, s)
      ∧ out = expected [Read SSID; Include; Read OUTPORT; Read SSID]
      ∧ Forall (λ ob : observation, ob.2 = template_tokens ob.1) out.
Proof.
  assert (H : fresh ∅) by (unfold fresh; repeat constructor).
  split; [done|].
  apply (C5_immutable Override ∅
           [Read SSID; Include; Read OUTPORT; Read SSID] H).
Defined.

(** ** The include guard *)

(** Without the guard a second inclusion executes every [#define] again. *)
Lemma unguarded_twice (pol : redef_policy) :
  ∃ s,
    (include pol secrets_unguarded (init_state ∅)
       ≫= include pol secrets_unguarded) = Some s
    ∧ Forall (λ n, times_defined (macro_name n) s = 2%nat) all_names.
Proof. destruct pol; eexists; (split; [by vm_compute|by repeat constructor]). Qed.

(** C9: including the header twice gives the state that including it once
    gives: the second inclusion changes nothing, the four entries hold the
    values of the template, and the guard and each of the four names have
    been defined once. *)
Theorem C9_include_idempotent (pol : redef_policy)
    (m : gmap string (list pp_token)) :
  fresh m →
  ∃ s,
    include pol secrets_template_h (init_state m) = Some s
    ∧ include pol secrets_template_h s = Some s
    ∧ (include pol secrets_template_h (init_state m)
         ≫= include pol secrets_template_h)
      = include pol secrets_template_h (init_state m)
    ∧ Forall (λ name, times_defined name s = 1%nat) header_names
    ∧ (∀ n, macros s !! macro_name n = Some (template_tokens n))
    ∧ macros s
      = table_after SECRET_SSID SECRET_PASSWORD SECRET_IP SECRET_OUTPORT m.
Proof.
  intros Hm. rewrite secrets_template_h_eq.
  rewrite (include_fresh pol) by done.
  eexists. split; [done|].
  assert (Hi : included template_config
            {| macros := table_after (ssid template_config)
                           (password template_config) (ip template_config)
                           (outport template_config)
                           (macros (init_state m));
               conds := conds (init_state m);
               defs := (defs (init_state m) ++ header_names)%list |})
    by by exists m.
  split; [by apply (include_included pol template_config)|].
  split; [by apply (include_included pol template_config)|].
  split; [by repeat constructor|]. split; [|done].
  intros n. rewrite template_tokens_config. apply table_after_entry.
Qed.

Lemma C9_include_idempotent_witness :
  fresh ∅
  ∧ ∃ s,
      include Strict secrets_template_h (init_state ∅) = Some s
      ∧ include Strict secrets_template_h s = Some s
      ∧ (include Strict secrets_template_h (init_state ∅)
           ≫= include Strict secrets_template_h)
        = include Strict secrets_template_h (init_state ∅)
      ∧ Forall (λ name, times_defined name s = 1%nat) header_names
      ∧ (∀ n, macros s !! macro_name n = Some (template_tokens n))
      ∧ macros s
        = table_after SECRET_SSID SECRET_PASSWORD SECRET_IP SECRET_OUTPORT ∅.
Proof.
  assert (H : fresh ∅) by (unfold fresh; repeat constructor).
  split; [done|]. apply (C9_include_idempotent Strict ∅ H).
Defined.

(** ** Determinism *)

Lemma read_in_fresh (pol : redef_policy) (c : config)
    (m : gmap string (list pp_token)) (n : config_name) :
  fresh m →
  read_in pol (edit c secrets_template_h) m n = Some (config_tokens c n).
Proof.
  intros Hm. unfold read_in.
  change (edit c secrets_template_h)
    with (secrets_h (ssid c) (password c) (ip c) (outport c)).
  destruct (include_fresh_included pol c (init_state m) Hm)
    as (s & -> & Hi & _).
  cbn. by rewrite (read_included c).
Qed.

(** C10: what a read returns depends on the name alone.  Two runs, under
    either redefinition policy, started from any two macro tables that do
    not hold the header's names, and doing any reads and inclusions before,
    read the same value for the same name: the value of the template.  In
    an edited copy the value read for a name is the one written for that
    name, whatever the other three entries hold. *)
Theorem C10_deterministic (pol1 pol2 : redef_policy)
    (m1 m2 : gmap string (list pp_token)) (ops1 ops2 : list op)
    (n : config_name) :
  fresh m1 → fresh m2 →
  (∃ s1 s2 out1 out2,
      include pol1 secrets_template_h (init_state m1) = Some s1
      ∧ include pol2 secrets_template_h (init_state m2) = Some s2
      ∧ run_ops pol1 ops1 s1 = Some (out1, s1)
      ∧ run_ops pol2 ops2 s2 = Some (out2, s2)
      ∧ fst <$> read n s1 = Some (template_tokens n)
      ∧ fst <$> read n s2 = Some (template_tokens n))
  ∧ read_in pol1 secrets_template_h m1 n = read_in pol2 secrets_template_h m2 n
  ∧ (∀ c c' : config,
        config_tokens c n = config_tokens c' n →
        read_in pol1 (edit c secrets_template_h) m1 n
        = read_in pol2 (edit c' secrets_template_h) m2 n).
Proof.
  intros Hm1 Hm2. split; [|split].
  - rewrite secrets_template_h_eq.
    destruct (include_fresh_included pol1 template_config (init_state m1) Hm1)
      as (s1 & Hs1 & Hi1 & _).
    destruct (include_fresh_included pol2 template_config (init_state m2) Hm2)
      as (s2 & Hs2 & Hi2 & _).
    exists s1, s2, (expected ops1), (expected ops2).
    rewrite !run_ops_included, !(read_included template_config) by done.
    by repeat split.
  - change secrets_template_h with (edit template_config secrets_template_h).
    by rewrite !read_in_fresh.
  - intros c c' Hc. rewrite !read_in_fresh by done. by rewrite Hc.
Qed.

Lemma C10_deterministic_witness :
  fresh ∅ ∧ fresh {[ "ARDUINO" := [IntLit 10812] ]}
  ∧ read_in Strict secrets_template_h ∅ IP
    = read_in Override secrets_template_h {[ "ARDUINO" := [IntLit 10812] ]} IP.
Proof.
  assert (H1 : fresh ∅) by (unfold fresh; repeat constructor).
  assert (H2 : fresh {[ "ARDUINO" := [IntLit 10812] ]})
    by (unfold fresh; repeat constructor).
  split; [done|]. split; [done|].
  destruct (C10_deterministic Strict Override ∅
              {[ "ARDUINO" := [IntLit 10812] ]}
              [Read IP] [Include; Read SSID] IP H1 H2) as (_ & H & _).
  exact H.
Defined.

(** ** Editing a copy of the template *)

Lemma valid_config_spec (c : config) :
  valid_config c = true
  ↔ ssid c ≠ EmptyString ∧ password c ≠ EmptyString ∧ dotted_quad (ip c)
    ∧ 1 <= outport c <= 65535.
Proof.
  unfold valid_config, nonempty, valid_port.
  rewrite !andb_true_iff, !negb_true_iff, !String.eqb_neq,
    valid_ipv4_dotted_quad, !Z.leb_le.
  tauto.
Qed.

Lemma table_after_dom (a b c : string) (d : Z) :
  dom (table_after a b c d ∅) = list_to_set header_names.
Proof.
  vm_compute. reflexivity.
Qed.

Lemma table_after_valued_dom (a b c : string) (d : Z) :
  dom (valued (table_after a b c d ∅))
  = list_to_set (map macro_name all_names).
Proof.
  vm_compute. reflexivity.
Qed.

Lemma edit_well_formed (pol : redef_policy) (c : config) :
  valid_config c = true → well_formed pol (edit c secrets_template_h).
Proof.
  intros Hc.
  change (edit c secrets_template_h)
    with (secrets_h (ssid c) (password c) (ip c) (outport c)).
  unfold well_formed.
  rewrite (include_fresh pol _ _ _ _ (init_state ∅) fresh_empty).
  eexists _, c. split; [done|]. cbn [macros init_state].
  split; [apply table_after_dom|]. split; [apply table_after_valued_dom|].
  split; [|done]. apply read_config_included. by exists ∅.
Qed.

(** C6: the template satisfies the constraints of the data model, and a
    copy in which the four values are replaced by a non-empty SSID, a
    non-empty password, a dotted-quad address and a port between 1 and
    65535 satisfies them again: preprocessed on its own it defines the
    guard and the same four names and nothing else, and the configuration
    read from it is the one written into it and is valid. *)
Theorem C6_edit_preserves_validity (pol : redef_policy) (c : config) :
  ssid c ≠ EmptyString → password c ≠ EmptyString → dotted_quad (ip c) →
  1 <= outport c <= 65535 →
  well_formed pol secrets_template_h
  ∧ well_formed pol (edit c secrets_template_h)
  ∧ (include pol (edit c secrets_template_h) (init_state ∅) ≫= read_config)
    = Some c
  ∧ valid_config c = true.
Proof.
  intros H1 H2 H3 H4.
  assert (Hc : valid_config c = true) by by apply valid_config_spec.
  split.
  { change secrets_template_h with (edit template_config secrets_template_h).
    by apply edit_well_formed. }
  split; [by apply edit_well_formed|]. split; [|done].
  change (edit c secrets_template_h)
    with (secrets_h (ssid c) (password c) (ip c) (outport c)).
  rewrite (include_fresh pol _ _ _ _ (init_state ∅) fresh_empty). cbn [mbind option_bind].
  apply read_config_included. by exists ∅.
Qed.

Lemma C6_edit_preserves_validity_witness :
  let c := {| ssid := "studio"; password := "correct horse";
              ip := "10.0.0.7"; outport := 9000 |} in
  (ssid c ≠ EmptyString ∧ password c ≠ EmptyString ∧ dotted_quad (ip c)
   ∧ 1 <= outport c <= 65535)
  ∧ well_formed Strict secrets_template_h
  ∧ well_formed Strict (edit c secrets_template_h)
  ∧ (include Strict (edit c secrets_template_h) (init_state ∅) ≫= read_config)
    = Some c
  ∧ valid_config c = true.
Proof.
  intros c.
  assert (H1 : ssid c ≠ EmptyString) by done.
  assert (H2 : password c ≠ EmptyString) by done.
  assert (H3 : dotted_quad (ip c)).
  { exists 10, 0, 0, 7. unfold octet. repeat split; (lia || reflexivity). }
  assert (H4 : 1 <= outport c <= 65535) by (cbn; lia).
  split; [done|]. apply (C6_edit_preserves_validity Strict c H1 H2 H3 H4).
Defined.

(** ** Concurrent readers *)

(** C8: any number of threads, each with any list of reads, may run
    against the included header in any interleaving and without a lock.
    At every point of every execution the shared state is the one the
    inclusion left, every access so far is a read that returned the value
    of the template, no two accesses race, and any thread with a read left
    can take its step; the threads can always run to the end, and at the
    end each thread has seen what it sees when it runs alone. *)
Theorem C8_concurrent_reads (pol : redef_policy)
    (m : gmap string (list pp_token)) (progs : list (list config_name)) :
  fresh m →
  ∃ s,
    include pol secrets_template_h (init_state m) = Some s
    ∧ let M0 := {| shared := s; pool := progs; trace := [] |} in
      (∀ M, steps M0 M →
         shared M = s
         ∧ Forall clean_read (trace M)
         ∧ ¬ race (trace M)
         ∧ (∀ i n rest, pool M !! i = Some (n :: rest) → ∃ M', step M M')
         ∧ (finished M →
            ∀ i p, progs !! i = Some p → seen_by i (trace M) = alone p))
      ∧ (∃ M, steps M0 M ∧ finished M).
Proof.
  intros Hm. rewrite secrets_template_h_eq.
  destruct (include_fresh_included pol template_config (init_state m) Hm)
    as (s & Hs & Hi & _).
  exists s. split; [done|]. cbv zeta. split; [|by apply can_finish].
  intros M HM.
  set (M0 := {| shared := s; pool := progs; trace := [] |}) in *.
  assert (Hi0 : included template_config (shared M0)) by done.
  pose proof (steps_shared M0 M Hi0 HM) as Es. cbn in Es.
  assert (Hc : Forall clean_read (trace M))
    by (apply (steps_clean M0 M Hi0 HM); constructor).
  split; [done|]. split; [done|]. split; [by apply clean_no_race|]. split.
  - intros i n rest Hp. apply (progress M i n rest); [by rewrite Es|done].
  - intros Hf i p Hp.
    destruct (steps_view M0 M i p Hi0 HM Hp) as (p' & Hp' & E).
    assert (p' = []) as ->.
    { unfold finished in Hf. rewrite Forall_lookup in Hf. by eapply Hf. }
    cbn in E. by rewrite app_nil_r in E.
Qed.

Lemma C8_concurrent_reads_witness :
  fresh ∅
  ∧ ∃ s,
      include Strict secrets_template_h (init_state ∅) = Some s
      ∧ let M0 := {| shared := s;
                     pool := [[SSID; IP]; [OUTPORT]; [IP; PASSWORD]];
                     trace := [] |} in
        (∀ M, steps M0 M →
           shared M = s
           ∧ Forall clean_read (trace M)
           ∧ ¬ race (trace M)
           ∧ (∀ i n rest, pool M !! i = Some (n :: rest) → ∃ M', step M M')
           ∧ (finished M →
              ∀ i p, [[SSID; IP]; [OUTPORT]; [IP; PASSWORD]] !! i = Some p →
                     seen_by i (trace M) = alone p))
        ∧ (∃ M, steps M0 M ∧ finished M).
Proof.
  assert (H : fresh ∅) by (unfold fresh; repeat constructor).
  split; [done|].
  apply (C8_concurrent_reads Strict ∅ [[SSID; IP]; [OUTPORT]; [IP; PASSWORD]] H).
Defined.

(** * Further properties of the header *)

(** ** What its directives do, in every state *)

Section HeaderInEveryState.

Variable pol : redef_policy.

Lemma do_define_clash n b s :
  do_define pol n b s
  = if is_strict pol && clash (macros s) n b then None
    else Some {| macros := <[n := b]> (macros s);
                 conds := conds s;
                 defs := (defs s ++ [n])%list |}.
Proof.
  unfold do_define, clash. destruct (macros s !! n) as [b'|].
  - destruct (decide (b' = b)) as [->|Hne].
    + rewrite bool_decide_eq_false_2 by (intros H; by apply H).
      by rewrite andb_false_r.
    + rewrite bool_decide_eq_true_2 by done. by destruct pol.
  - by rewrite andb_false_r.
Qed.

Lemma clash_insert_ne m k v n b :
  k ≠ n → clash (<[k := v]> m) n b = clash m n b.
Proof. intros H. unfold clash. by rewrite lookup_insert_ne. Qed.

(** The directives of a copy holding [c], executed in any state. *)
Lemma run_secrets_h c s :
  run pol (secrets_h (ssid c) (password c) (ip c) (outport c)) s
  = if active s && bool_decide (macros s !! "SECRETS_H" = None)
    then if is_strict pol && clashes c (macros s) then None
         else Some (after_defines c s)
    else Some s.
Proof.
  unfold secrets_h, secrets_body, SECRETS_H. cbn [app run exec].
  unfold active. cbn [conds macros defs mbind option_bind forallb].
  destruct (forallb id (conds s)) eqn:Ha;
    [destruct (macros s !! "SECRETS_H") as [g|] eqn:Hg|];
    cbn [andb id bool_decide decide_rel mbind option_bind conds macros defs];
    try by destruct s.
  rewrite !(bool_decide_eq_true_2 (None = None)) by done. cbn [andb].
  rewrite do_define_fresh by done.
  unfold clashes, after_defines, table_after, header_names, guard_name.
  cbn [existsb map all_names macro_name config_tokens].
  destruct (clash (macros s) "SECRET_SSID" _) eqn:E1,
    (clash (macros s) "SECRET_PASSWORD" _) eqn:E2,
    (clash (macros s) "SECRET_IP" _) eqn:E3,
    (clash (macros s) "SECRET_OUTPORT" _) eqn:E4;
    destruct (is_strict pol) eqn:Ep;
    repeat (cbn [mbind option_bind conds macros defs forallb id andb orb];
            rewrite ?Ha, ?do_define_clash;
            cbn [macros]; rewrite ?clash_insert_ne by done;
            rewrite ?Ep, ?E1, ?E2, ?E3, ?E4);
    rewrite <- ?app_assoc; reflexivity.
Qed.

(** Inclusion of a copy holding [c], in any state. *)
Lemma include_secrets_h c s :
  include pol (secrets_h (ssid c) (password c) (ip c) (outport c)) s
  = match macros s !! "SECRETS_H" with
    | Some _ => Some s
    | None => if is_strict pol && clashes c (macros s) then None
              else Some (after_defines c s)
    end.
Proof.
  unfold include. rewrite run_secrets_h.
  unfold active, after_defines. cbn [conds macros defs forallb andb].
  destruct (macros s !! "SECRETS_H") as [g|];
    cbn [bool_decide decide_rel mbind option_bind conds macros defs].
  - by destruct s.
  - rewrite bool_decide_eq_true_2 by done.
    by destruct (is_strict pol && clashes c (macros s)).
Qed.


Lemma after_defines_included c s : included c (after_defines c s).
Proof. by exists (macros s). Qed.

End HeaderInEveryState.

(** ** What a user of the header can rely on *)

(** X1: whatever the state, an inclusion that goes through leaves every
    macro other than the guard and the four entries as it found it, and
    leaves the enclosing conditionals as they were. *)
Theorem include_keeps_other_macros (pol : redef_policy) (c : config)
    (s s' : pp_state) (k : string) :
  k ∉ header_names →
  include pol (edit c secrets_template_h) s = Some s' →
  macros s' !! k = macros s !! k ∧ conds s' = conds s.
Proof.
  intros Hk.
  change (edit c secrets_template_h)
    with (secrets_h (ssid c) (password c) (ip c) (outport c)).
  rewrite include_secrets_h.
  destruct (macros s !! "SECRETS_H") as [g|]; [by intros [= <-]|].
  destruct (is_strict pol && clashes c (macros s)); [done|]. intros [= <-].
  split; [|done]. cbn [after_defines macros]. unfold table_after.
  unfold header_names, guard_name, all_names in Hk. cbn [map macro_name] in Hk.
  rewrite !not_elem_of_cons in Hk. destruct Hk as (? & ? & ? & ? & ? & _).
  by rewrite !lookup_insert_ne.
Qed.

Lemma include_keeps_other_macros_witness :
  let s := init_state {[ "ARDUINO" := [IntLit 10812] ]} in
  let s' := after_defines template_config s in
  ("ARDUINO" ∉ header_names)
  ∧ include Strict (edit template_config secrets_template_h) s = Some s'
  ∧ macros s' !! "ARDUINO" = Some [IntLit 10812].
Proof.
  intros s s'.
  assert (H1 : "ARDUINO" ∉ header_names)
    by (apply (bool_decide_unpack _); vm_compute; exact I).
  assert (H2 : include Strict (edit template_config secrets_template_h) s
               = Some s') by (vm_compute; reflexivity).
  split; [done|]. split; [done|].
  destruct (include_keeps_other_macros Strict template_config s s'
              "ARDUINO" H1 H2) as [-> _].
  reflexivity.
Defined.







(** X6: from any state, any number of inclusions in a row, at least one,
    gives what the first of them gives. *)
Theorem include_times_once (pol : redef_policy) (c : config)
    (s s1 : pp_state) (k : nat) :
  include pol (edit c secrets_template_h) s = Some s1 →
  include_times pol (edit c secrets_template_h) (S k) s = Some s1.
Proof.
  intros H. cbn [include_times]. rewrite H. cbn [mbind option_bind].
  assert (Hfix : include pol (edit c secrets_template_h) s1 = Some s1).
  { revert H.
    change (edit c secrets_template_h)
      with (secrets_h (ssid c) (password c) (ip c) (outport c)).
    rewrite (include_secrets_h pol c s).
    destruct (macros s !! "SECRETS_H") as [g|] eqn:Hg.
    - intros [= <-]. by rewrite include_secrets_h, Hg.
    - destruct (is_strict pol && clashes c (macros s)); [done|].
      intros [= <-].
      apply (include_included pol c), after_defines_included. }
  induction k as [|k IH]; [done|].
  cbn [include_times]. rewrite Hfix. exact IH.
Qed.

Lemma include_times_once_witness :
  let s := init_state ∅ in
  let s1 := after_defines template_config s in
  include Strict (edit template_config secrets_template_h) s = Some s1
  ∧ include_times Strict (edit template_config secrets_template_h) 4 s
    = Some s1.
Proof.
  intros s s1.
  assert (H : include Strict (edit template_config secrets_template_h) s
              = Some s1) by (vm_compute; reflexivity).
  split; [done|].
  exact (include_times_once Strict template_config s s1 3 H).
Defined.

(** X7: the conditionals of the header are balanced.  Executed in any
    state, inside any open conditionals, its directives leave the stack of
    open conditionals as they found it; inside a group that is being
    skipped they change nothing at all. *)
Theorem header_conditionals_balanced (pol : redef_policy) (c : config)
    (s s' : pp_state) :
  run pol (edit c secrets_template_h) s = Some s' →
  conds s' = conds s ∧ (active s = false → s' = s).
Proof.
  change (edit c secrets_template_h)
    with (secrets_h (ssid c) (password c) (ip c) (outport c)).
  rewrite run_secrets_h.
  destruct (active s); cbn [andb].
  - destruct (bool_decide (macros s !! "SECRETS_H" = None)).
    + destruct (is_strict pol && clashes c (macros s)); [done|].
      by intros [= <-].
    + by intros [= <-].
  - by intros [= <-].
Qed.

Lemma header_conditionals_balanced_witness :
  let s := {| macros := ∅; conds := [true; true]; defs := [] |} in
  let s' := after_defines template_config s in
  run Strict (edit template_config secrets_template_h) s = Some s'
  ∧ conds s' = [true; true] ∧ (active s = false → s' = s).
Proof.
  intros s s'.
  assert (H : run Strict (edit template_config secrets_template_h) s = Some s')
    by (vm_compute; reflexivity).
  split; [done|].
  exact (header_conditionals_balanced Strict template_config s s' H).
Defined.
